(** * rtk-example: the counter slice of the README and the linter configuration

    The repository holds two files.  [README.md] documents Redux Toolkit
    conventions and carries, as fenced code, the example slice
    [redux/counter/counterSlice.ts]; [.eslintrc.js] assigns one object literal
    to [module.exports].  Both are embedded below: the object literal as a
    JavaScript value, the case reducers of the slice as state-passing
    functions over the JavaScript [number] type, i.e. IEEE 754 binary64. *)

From Stdlib Require Import ZArith Lia Bool List String DecimalString.
From Stdlib Require Import Floats.SpecFloat.
Import ListNotations.

Local Open Scope string_scope.
Local Open Scope Z_scope.

Set Warnings "-register-all".

(** ** The JavaScript [number] type *)

Module JsNumber.

(** binary64: 53 bits of mantissa, infinities at exponent 1024. *)
Definition prec : Z := 53.
Definition emax : Z := 1024.

(** A [number] is a binary64 datum.  NaN carries no payload, as in
    JavaScript where all NaNs are indistinguishable. *)
Definition number : Type := spec_float.

(** The well-formed members of [number]: canonical mantissa, exponent in
    range. *)
Definition is_double (x : number) : bool := valid_binary prec emax x.

(** A numeric literal with an integer value, such as [0], [1] or [12]:
    the integer rounded to nearest, ties to even. *)
Definition lit (n : Z) : number := binary_normalize prec emax n 0 false.

(** [x + y] and [x - y] on numbers. *)
Definition add (x y : number) : number := SFadd prec emax x y.
Definition sub (x y : number) : number := SFsub prec emax x y.

(** [x === y] on numbers. *)
Definition strict_eq (x y : number) : bool := SFeqb x y.

(** Least exponent of a binary64 datum is [-bias]. *)
Definition bias : Z := 1074.

(** [denotes x n]: the datum [x] is well formed and its value is exactly the
    integer [n]; zero is the positive zero.  Values are compared after
    scaling by [2 ^ bias], which keeps every exponent non-negative. *)
Definition denotes (x : number) (n : Z) : Prop :=
  match x with
  | S754_zero s => s = false /\ n = 0
  | S754_finite s m e =>
      bounded prec emax m e = true /\
      cond_Zopp s (Zpos m) * 2 ^ (e + bias) = n * 2 ^ bias
  | _ => False
  end.

End JsNumber.

(** ** Completions

    A JavaScript function body either completes normally or throws. *)

Inductive Completion (A : Type) : Type :=
| Normal (a : A)
| Throw (reason : string).

Arguments Normal {A} a.
Arguments Throw {A} reason.

Definition bind {A B : Type} (c : Completion A) (k : A -> Completion B)
  : Completion B :=
  match c with
  | Normal a => k a
  | Throw r => Throw r
  end.

Notation "c >>= k" := (bind c k) (at level 50, left associativity).

(** ** README.md, [redux/counter/counterSlice.ts] *)

Module CounterSlice.
Import JsNumber.

(** [export interface CounterState { value: number }] *)
Record CounterState : Type := { value : number }.

(** [const initialState: CounterState = { value: 0 }] *)
Definition initialState : CounterState := {| value := lit 0 |}.

(** [PayloadAction<number>]: the action object handed to a case reducer. *)
Record PayloadAction : Type := { type : string; payload : number }.

(** [state.value = v] on the draft handed to a case reducer.  A case
    reducer mutates the draft and returns nothing; the draft after the call
    is the next state, which is what the functions below return.  The draft
    is an ordinary mutable object, so the assignment always completes. *)
Definition assign_value (state : CounterState) (v : number)
  : Completion CounterState :=
  Normal {| value := v |}.

(** [increment: (state) => { state.value += 1 }] *)
Definition increment (state : CounterState) : Completion CounterState :=
  assign_value state (add (value state) (lit 1)).

(** [decrement: (state) => { state.value -= 1 }] *)
Definition decrement (state : CounterState) : Completion CounterState :=
  assign_value state (sub (value state) (lit 1)).

(** [incrementByAmount: (state, action: PayloadAction<number>) =>
      { state.value += action.payload }] *)
Definition incrementByAmount (state : CounterState) (action : PayloadAction)
  : Completion CounterState :=
  assign_value state (add (value state) (payload action)).

(** The action [incrementByAmount(p)] built by the generated action
    creator: its type is the slice name, a slash, the reducer name. *)
Definition incrementByAmount_action (p : number) : PayloadAction :=
  {| type := "counter/incrementByAmount"; payload := p |}.

End CounterSlice.

(** ** .eslintrc.js *)

Module Eslintrc.
Import JsNumber.

(** The JavaScript values an object literal can hold. *)
Inductive JsValue : Type :=
| JBool (b : bool)
| JNum (n : number)
| JStr (s : string)
| JArr (items : list JsValue)
| JObj (fields : list (string * JsValue))
| JFun (name : string).

(** The object literal assigned to [module.exports], key by key in source
    order. *)
Definition module_exports : JsValue :=
  JObj
    [ ("root", JBool true);
      ("env", JObj [ ("browser", JBool true); ("es2021", JBool true) ]);
      ("extends",
        JArr
          [ JStr "react-app";
            JStr "react-app/jest";
            JStr "plugin:react/recommended";
            JStr "eslint:recommended";
            JStr "plugin:@typescript-eslint/eslint-recommended";
            JStr "plugin:@typescript-eslint/recommended";
            JStr "google";
            JStr "prettier" ]);
      ("parser", JStr "@typescript-eslint/parser");
      ("parserOptions",
        JObj
          [ ("ecmaFeatures", JObj [ ("jsx", JBool true) ]);
            ("ecmaVersion", JNum (lit 12));
            ("sourceType", JStr "module") ]);
      ("plugins", JArr [ JStr "react"; JStr "@typescript-eslint"; JStr "prettier" ]);
      ("rules",
        JObj
          [ ("react/react-in-jsx-scope", JStr "off");
            ("require-jsdoc", JStr "off");
            ("no-console", JNum (lit 1));
            ("prettier/prettier", JNum (lit 2));
            ("linebreak-style", JStr "off") ]) ].

(** Property read [o.k] (or [o[k]]): in an object literal a later
    occurrence of a key wins; [None] stands for [undefined]. *)
Definition get (k : string) (o : JsValue) : option JsValue :=
  match o with
  | JObj fields =>
      option_map snd
        (find (fun kv => String.eqb k (fst kv)) (rev fields))
  | _ => None
  end.

(** The entries of an object, the elements of an array. *)
Definition entries (o : option JsValue) : list (string * JsValue) :=
  match o with
  | Some (JObj fields) => fields
  | _ => []
  end.

Definition elements (o : option JsValue) : list JsValue :=
  match o with
  | Some (JArr items) => items
  | _ => []
  end.

(** [extends] and [rules] of the exported configuration. *)
Definition extends : list JsValue := elements (get "extends" module_exports).
Definition rules : list (string * JsValue) :=
  entries (get "rules" module_exports).

(** Severities as the file writes them: the string ['off'] disables a
    rule, and by the file's own comments [1] "Means warning" and [2]
    "Means error". *)
Inductive Severity : Type := Off | Warning | Error.

Definition Severity_eqb (a b : Severity) : bool :=
  match a, b with
  | Off, Off | Warning, Warning | Error, Error => true
  | _, _ => false
  end.

Definition severity (v : JsValue) : option Severity :=
  match v with
  | JStr s => if String.eqb s "off" then Some Off else None
  | JNum n =>
      if strict_eq n (lit 1) then Some Warning
      else if strict_eq n (lit 2) then Some Error
      else None
  | _ => None
  end.

(** The names of the rules overridden to a given severity. *)
Definition overridden (sev : Severity) (rs : list (string * JsValue))
  : list string :=
  map fst
    (filter
       (fun kv =>
          match severity (snd kv) with
          | Some s => Severity_eqb s sev
          | None => false
          end)
       rs).

End Eslintrc.

(** ** README.md, the case reducers called one after another

    [export const { increment, decrement, incrementByAmount } =
    counterSlice.actions] names the three calls a component can make, as in
    [dispatch(increment())] of [components/Counter.tsx]. *)

Module CounterCalls.
Import JsNumber CounterSlice.

(** One call of a case reducer; [incrementByAmount] comes with its action. *)
Inductive CaseReducer : Type :=
| Increment
| Decrement
| IncrementByAmount (action : PayloadAction).

Definition call (r : CaseReducer) (state : CounterState)
  : Completion CounterState :=
  match r with
  | Increment => increment state
  | Decrement => decrement state
  | IncrementByAmount action => incrementByAmount state action
  end.

(** The calls in order, each on the state the previous one left; a throw
    would end the run. *)
Fixpoint run (calls : list CaseReducer) (state : CounterState)
  : Completion CounterState :=
  match calls with
  | [] => Normal state
  | r :: rest => call r state >>= run rest
  end.

(** Calls whose effect on the count is an integer: [increment()],
    [decrement()] and [incrementByAmount(p)] with an integer literal [p]. *)
Inductive Step : Type := Inc | Dec | By (p : Z).

Definition delta (st : Step) : Z :=
  match st with
  | Inc => 1
  | Dec => -1
  | By p => p
  end.

Definition to_call (st : Step) : CaseReducer :=
  match st with
  | Inc => Increment
  | Dec => Decrement
  | By p => IncrementByAmount (incrementByAmount_action (lit p))
  end.

(** The integers within [2 ^ 53] in magnitude. *)
Definition safe (n : Z) : bool := (- 2 ^ 53 <=? n) && (n <=? 2 ^ 53).

(** Every amount and every running total of the steps, started at [s], is
    [safe]. *)
Fixpoint totals_safe (s : Z) (steps : list Step) : bool :=
  match steps with
  | [] => true
  | st :: rest =>
      safe (delta st) && safe (s + delta st) && totals_safe (s + delta st) rest
  end.

Definition total (s : Z) (steps : list Step) : Z :=
  fold_left Z.add (map delta steps) s.

(** Numbers that are neither NaN nor an infinity, and calls that add or
    subtract only such numbers. *)
Definition is_finite (x : number) : bool :=
  match x with
  | S754_zero _ | S754_finite _ _ _ => true
  | _ => false
  end.

Definition finite_call (r : CaseReducer) : bool :=
  match r with
  | Increment | Decrement => true
  | IncrementByAmount action => is_finite (payload action)
  end.

End CounterCalls.

(** ** README.md, [services/pokemon.ts] *)

Module PokemonApi.

(** [reducerPath: 'pokemonApi'] and the [baseUrl] of [fetchBaseQuery]. *)
Definition reducerPath : string := "pokemonApi".
Definition baseUrl : string := "https://pokeapi.co/api/v2/".

(** [query: (name) => `pokemon/${name}`] of the endpoint
    [getPokemonByName], whose argument type is [string]. *)
Definition query (name : string) : string := "pokemon/" ++ name.

End PokemonApi.

(** ** The case reducers at run time

    TypeScript's types are erased: at run time a case reducer receives
    whatever values it is called with.  This section lets [state] and
    [action] range over untyped values and follows the three bodies
    operation by operation, so that the places where JavaScript throws are
    part of the model. *)

Module Runtime.
Import JsNumber.

(** The values a store state or an action can hold: the primitives and
    plain objects, an object being its own fields in insertion order. *)
Inductive Value : Type :=
| VUndefined
| VNull
| VBoolean (b : bool)
| VNumber (n : number)
| VBigInt (z : Z)
| VString (s : string)
| VObject (fields : list (string * Value)).

Definition TypeError {A : Type} : Completion A := Throw "TypeError".

(** The own field [k] of an object, and the fields after [o.k = v]: an
    existing key keeps its place, a new key goes last. *)
Fixpoint own (k : string) (fields : list (string * Value)) : option Value :=
  match fields with
  | [] => None
  | (k', v) :: rest => if String.eqb k k' then Some v else own k rest
  end.

Fixpoint put (k : string) (v : Value) (fields : list (string * Value))
  : list (string * Value) :=
  match fields with
  | [] => [(k, v)]
  | (k', v') :: rest =>
      if String.eqb k k' then (k, v) :: rest else (k', v') :: put k v rest
  end.

(** The read [o.k], for a key that no built-in prototype defines, as
    [value] and [payload]: it throws on [undefined] and [null], and gives
    [undefined] where the key is missing and on every other primitive. *)
Definition get_member (o : Value) (k : string) : Completion Value :=
  match o with
  | VUndefined | VNull => TypeError
  | VObject fields =>
      Normal match own k fields with Some v => v | None => VUndefined end
  | _ => Normal VUndefined
  end.

(** The write [o.k = v] in strict code, which module code is: it throws
    unless [o] is an object. *)
Definition set_member (o : Value) (k : string) (v : Value)
  : Completion Value :=
  match o with
  | VObject fields => Normal (VObject (put k v fields))
  | _ => TypeError
  end.

Section Operators.

(** The conversions between numbers and their text are the language's own
    and are left open: no statement below depends on what they return. *)
Variable number_to_string : number -> string.
Variable string_to_number : string -> number.

(** ToPrimitive: a plain object turns into the text of
    [Object.prototype.toString]. *)
Definition to_primitive (v : Value) : Value :=
  match v with
  | VObject _ => VString "[object Object]"
  | _ => v
  end.

(** ToString of a primitive. *)
Definition to_string (v : Value) : string :=
  match v with
  | VUndefined => "undefined"
  | VNull => "null"
  | VBoolean true => "true"
  | VBoolean false => "false"
  | VNumber n => number_to_string n
  | VBigInt z => DecimalString.NilZero.string_of_int (Z.to_int z)
  | VString s => s
  | VObject _ => "[object Object]"
  end.

(** ToNumeric of a primitive: a number or a BigInt. *)
Inductive Numeric : Type :=
| ANumber (n : number)
| ABigInt (z : Z).

Definition to_numeric (v : Value) : Numeric :=
  match v with
  | VUndefined => ANumber S754_nan
  | VNull => ANumber (lit 0)
  | VBoolean true => ANumber (lit 1)
  | VBoolean false => ANumber (lit 0)
  | VNumber n => ANumber n
  | VBigInt z => ABigInt z
  | VString s => ANumber (string_to_number s)
  | VObject _ => ANumber (string_to_number "[object Object]")
  end.

(** [a + b]: text if either operand is text after ToPrimitive, otherwise
    numeric; mixing a number with a BigInt throws. *)
Definition plus (a b : Value) : Completion Value :=
  let l := to_primitive a in
  let r := to_primitive b in
  match l, r with
  | VString _, _ | _, VString _ =>
      Normal (VString (to_string l ++ to_string r))
  | _, _ =>
      match to_numeric l, to_numeric r with
      | ANumber x, ANumber y => Normal (VNumber (add x y))
      | ABigInt x, ABigInt y => Normal (VBigInt (x + y))
      | _, _ => TypeError
      end
  end.

(** [a - b]: always numeric; mixing a number with a BigInt throws. *)
Definition minus (a b : Value) : Completion Value :=
  match to_numeric (to_primitive a), to_numeric (to_primitive b) with
  | ANumber x, ANumber y => Normal (VNumber (sub x y))
  | ABigInt x, ABigInt y => Normal (VBigInt (x - y))
  | _, _ => TypeError
  end.

(** [increment: (state) => { state.value += 1 }]: read, add, write back;
    the draft after the call is the next state. *)
Definition increment (state : Value) : Completion Value :=
  get_member state "value" >>= fun old =>
  plus old (VNumber (lit 1)) >>= fun new =>
  set_member state "value" new.

(** [decrement: (state) => { state.value -= 1 }] *)
Definition decrement (state : Value) : Completion Value :=
  get_member state "value" >>= fun old =>
  minus old (VNumber (lit 1)) >>= fun new =>
  set_member state "value" new.

(** [incrementByAmount: (state, action: PayloadAction<number>) =>
      { state.value += action.payload }]: the left side is read first,
    then the payload. *)
Definition incrementByAmount (state action : Value) : Completion Value :=
  get_member state "value" >>= fun old =>
  get_member action "payload" >>= fun amount =>
  plus old amount >>= fun new =>
  set_member state "value" new.

End Operators.

(** What the erased types promise: a [CounterState] is an object whose
    [value] is a number, a [PayloadAction<number>] an object whose [type] is
    a string and whose [payload] is a number.  Further fields are allowed,
    as in TypeScript. *)
Definition is_CounterState (v : Value) : bool :=
  match v with
  | VObject fields =>
      match own "value" fields with
      | Some (VNumber _) => true
      | _ => false
      end
  | _ => false
  end.

Definition is_PayloadAction (v : Value) : bool :=
  match v with
  | VObject fields =>
      match own "type" fields, own "payload" fields with
      | Some (VString _), Some (VNumber _) => true
      | _, _ => false
      end
  | _ => false
  end.

(** The typed records as run-time objects. *)
Definition of_state (s : CounterSlice.CounterState) : Value :=
  VObject [ ("value", VNumber (CounterSlice.value s)) ].

Definition of_action (a : CounterSlice.PayloadAction) : Value :=
  VObject [ ("type", VString (CounterSlice.type a));
            ("payload", VNumber (CounterSlice.payload a)) ].

End Runtime.

(** ** Rounding in [SpecFloat]: rescaling a mantissa does not change the result *)

Section Rounding.
Variables prec emax : Z.

Lemma iter_pos_swap {A : Type} (f : A -> A) (p : positive) (x : A) :
  iter_pos f p (f x) = f (iter_pos f p x).
Proof.
  revert x; induction p as [p IH | p IH | ]; intro x; simpl.
  - now rewrite !IH.
  - now rewrite !IH.
  - reflexivity.
Qed.

Lemma iter_pos_succ {A : Type} (f : A -> A) (p : positive) (x : A) :
  iter_pos f (Pos.succ p) x = iter_pos f p (f x).
Proof.
  revert x; induction p as [p IH | p IH | ]; intro x; simpl.
  - now rewrite !IH, !iter_pos_swap.
  - reflexivity.
  - reflexivity.
Qed.

Lemma shr_double (m : positive) (e c : Z) :
  0 <= c ->
  shr (Build_shr_record (Zpos m~0) false false) (e - 1) (c + 1)
  = shr (Build_shr_record (Zpos m) false false) e c.
Proof.
  intros Hc. destruct c as [ | p | p ]; [ | | lia ].
  - simpl. f_equal. lia.
  - replace (Z.pos p + 1) with (Z.pos (Pos.succ p)) by lia.
    unfold shr. rewrite iter_pos_succ. simpl shr_1. f_equal. lia.
Qed.

Lemma binary_round_aux_double (s : bool) (m : positive) (e : Z) :
  e <= fexp prec emax (Zpos (digits2_pos m) + e) ->
  binary_round_aux prec emax s (Zpos m~0) (e - 1) loc_Exact
  = binary_round_aux prec emax s (Zpos m) e loc_Exact.
Proof.
  intros He. unfold binary_round_aux, shr_fexp.
  cbn [Zdigits2 digits2_pos shr_record_of_loc].
  replace (Z.pos (Pos.succ (digits2_pos m)) + (e - 1))
    with (Z.pos (digits2_pos m) + e) by lia.
  set (fe := fexp prec emax (Z.pos (digits2_pos m) + e)) in *.
  replace (fe - (e - 1)) with ((fe - e) + 1) by lia.
  rewrite shr_double by lia. reflexivity.
Qed.

Lemma binary_round_double (s : bool) (m : positive) (e : Z) :
  binary_round prec emax s (m~0) (e - 1) = binary_round prec emax s m e.
Proof.
  unfold binary_round. cbn [digits2_pos].
  replace (Z.pos (Pos.succ (digits2_pos m)) + (e - 1))
    with (Z.pos (digits2_pos m) + e) by lia.
  pose proof (binary_round_aux_double s m e) as Haux.
  set (fe := fexp prec emax (Z.pos (digits2_pos m) + e)) in *.
  unfold shl_align.
  destruct (fe - e) as [ | d | d ] eqn:Hd.
  - replace (fe - (e - 1)) with 1 by lia. apply Haux. lia.
  - replace (fe - (e - 1)) with (Z.pos (Pos.succ d)) by lia. apply Haux. lia.
  - destruct (Pos.eq_dec d 1) as [-> | Hne].
    + replace (fe - (e - 1)) with 0 by lia. simpl Pos.iter.
      replace (e - 1) with fe by lia. reflexivity.
    + replace (fe - (e - 1)) with (Z.neg (Pos.pred d)) by lia.
      rewrite <- (Pos.succ_pred d Hne) at 2.
      rewrite Pos.iter_succ_r. reflexivity.
Qed.


Lemma binary_round_shift (s : bool) (m : positive) (e : Z) (k : positive) :
  binary_round prec emax s (Pos.iter xO m k) (e - Zpos k)
  = binary_round prec emax s m e.
Proof.
  induction k as [ | k IH ] using Pos.peano_ind.
  - apply binary_round_double.
  - rewrite Pos.iter_succ.
    replace (e - Z.pos (Pos.succ k)) with (e - Z.pos k - 1) by lia.
    now rewrite binary_round_double.
Qed.

Lemma Zpos_iter_xO (m k : positive) :
  Zpos (Pos.iter xO m k) = Zpos m * 2 ^ Zpos k.
Proof.
  induction k as [ | k IH ] using Pos.peano_ind.
  - simpl Pos.iter. lia.
  - rewrite Pos.iter_succ, Pos2Z.inj_succ, Z.pow_succ_r by lia.
    rewrite Pos2Z.inj_xO, IH. ring.
Qed.

Lemma binary_normalize_shift (z e k : Z) (sz : bool) :
  0 <= k ->
  binary_normalize prec emax (z * 2 ^ k) (e - k) sz
  = binary_normalize prec emax z e sz.
Proof.
  intros Hk. destruct k as [ | k | k ]; [ | | lia ].
  - now rewrite Z.pow_0_r, Z.mul_1_r, Z.sub_0_r.
  - destruct z as [ | m | m ].
    + reflexivity.
    + rewrite <- Zpos_iter_xO. apply binary_round_shift.
    + change (Z.neg m) with (- Z.pos m).
      rewrite Z.mul_opp_l, <- Zpos_iter_xO. apply binary_round_shift.
Qed.

Lemma binary_round_aux_canonical (s : bool) (m : positive) (e : Z) :
  bounded prec emax m e = true ->
  binary_round_aux prec emax s (Zpos m) e loc_Exact = S754_finite s m e.
Proof.
  unfold bounded, canonical_mantissa. intros Hb.
  apply andb_true_iff in Hb. destruct Hb as [Hc He].
  apply Z.eqb_eq in Hc.
  unfold binary_round_aux, shr_fexp. cbn [Zdigits2 shr_record_of_loc].
  rewrite Hc, Z.sub_diag. cbn [shr shr_m loc_of_shr_record round_nearest_even].
  cbn [Zdigits2 shr_record_of_loc].
  rewrite Hc, Z.sub_diag. cbn [shr shr_m]. now rewrite He.
Qed.

Lemma binary_round_canonical (s : bool) (m : positive) (e : Z) :
  bounded prec emax m e = true ->
  binary_round prec emax s m e = S754_finite s m e.
Proof.
  intros Hb. unfold binary_round, shl_align.
  assert (Hc : fexp prec emax (Z.pos (digits2_pos m) + e) = e).
  { unfold bounded, canonical_mantissa in Hb.
    apply andb_true_iff in Hb. now apply Z.eqb_eq. }
  rewrite Hc, Z.sub_diag. now apply binary_round_aux_canonical.
Qed.

(** Two integer-scaled writings of one value normalise alike. *)
Lemma binary_normalize_value (B M N ez : Z) (sz : bool) :
  0 <= B -> - B <= ez ->
  M * 2 ^ (ez + B) = N * 2 ^ B ->
  binary_normalize prec emax M ez sz = binary_normalize prec emax N 0 sz.
Proof.
  intros HB Hez Hv.
  assert (HBpos : 0 < 2 ^ B) by (apply Z.pow_pos_nonneg; lia).
  destruct (Z.le_gt_cases ez 0) as [Hle | Hgt].
  - assert (Hs : 2 ^ B = 2 ^ (- ez) * 2 ^ (ez + B)).
    { rewrite <- Z.pow_add_r by lia. f_equal. lia. }
    rewrite Hs, Z.mul_assoc in Hv.
    apply Z.mul_reg_r in Hv; [ | apply Z.pow_nonzero; lia ].
    subst M. replace ez with (0 - - ez) at 2 by lia.
    apply binary_normalize_shift. lia.
  - rewrite Z.pow_add_r, Z.mul_assoc in Hv by lia.
    apply Z.mul_reg_r in Hv; [ | lia ].
    subst N. symmetry.
    rewrite <- (binary_normalize_shift M ez ez sz) by lia.
    now rewrite Z.sub_diag.
Qed.

Lemma shl_align_fst (m : positive) (e e' : Z) :
  e' <= e ->
  Zpos (fst (shl_align m e e')) = Zpos m * 2 ^ (e - e').
Proof.
  intros Hle. unfold shl_align.
  destruct (e' - e) as [ | d | d ] eqn:Hd; [ | lia | ].
  - replace (e - e') with 0 by lia. simpl fst. lia.
  - replace (e - e') with (Zpos d) by lia. simpl fst. apply Zpos_iter_xO.
Qed.

End Rounding.

(** ** binary64 arithmetic on integer values *)

Section Binary64.
Import JsNumber.

Lemma bounded_ge_emin (m : positive) (e : Z) :
  bounded prec emax m e = true -> - bias <= e.
Proof.
  unfold bounded, canonical_mantissa, fexp, emin, prec, emax, bias.
  intros Hb. apply andb_true_iff in Hb. destruct Hb as [Hc _].
  apply Z.eqb_eq in Hc. lia.
Qed.

Lemma denotes_lit (x : number) (n : Z) : denotes x n -> x = lit n.
Proof.
  destruct x as [ s | s | | s m e ]; simpl; try contradiction.
  - intros [-> ->]. reflexivity.
  - intros [Hb Hv]. unfold lit.
    rewrite <- (binary_normalize_value prec emax bias _ _ e false
                  ltac:(unfold bias; lia) (bounded_ge_emin m e Hb) Hv).
    destruct s; simpl; symmetry; now apply binary_round_canonical.
Qed.

Lemma cond_Zopp_mul (s : bool) (x y : Z) :
  cond_Zopp s (x * y) = cond_Zopp s x * y.
Proof. destruct s; simpl; ring. Qed.

(** The aligned mantissas that [SFadd] and [SFsub] combine. *)
Lemma aligned_value (s : bool) (m : positive) (e ez n : Z) :
  - bias <= ez -> ez <= e ->
  cond_Zopp s (Zpos m) * 2 ^ (e + bias) = n * 2 ^ bias ->
  cond_Zopp s (Zpos (fst (shl_align m e ez))) * 2 ^ (ez + bias)
  = n * 2 ^ bias.
Proof.
  intros Hlo Hle <-.
  rewrite shl_align_fst, cond_Zopp_mul, <- Z.mul_assoc by assumption.
  rewrite <- Z.pow_add_r by lia. do 2 f_equal. lia.
Qed.

Lemma add_denotes (x y : number) (a b : Z) :
  denotes x a -> denotes y b -> add x y = lit (a + b).
Proof.
  unfold add.
  destruct x as [ sx | sx | | sx mx ex ], y as [ sy | sy | | sy my ey ];
    unfold denotes; try contradiction.
  - intros [-> ->] [-> ->]. reflexivity.
  - intros [-> ->] Hy. now apply denotes_lit.
  - intros Hx [-> ->]. rewrite Z.add_0_r. now apply denotes_lit.
  - intros [Hbx Hvx] [Hby Hvy]. unfold lit. cbn [SFadd].
    pose proof (bounded_ge_emin mx ex Hbx).
    pose proof (bounded_ge_emin my ey Hby).
    apply binary_normalize_value with (B := bias);
      [ unfold bias; lia | lia | ].
    rewrite !Z.mul_add_distr_r.
    f_equal; apply aligned_value; trivial; lia.
Qed.

Lemma sub_denotes (x y : number) (a b : Z) :
  denotes x a -> denotes y b -> sub x y = lit (a - b).
Proof.
  unfold sub.
  destruct x as [ sx | sx | | sx mx ex ], y as [ sy | sy | | sy my ey ];
    unfold denotes; try contradiction.
  - intros [-> ->] [-> ->]. reflexivity.
  - intros [-> ->] [Hby Hvy]. apply denotes_lit. split; [ assumption | ].
    rewrite Z.sub_0_l, Z.mul_opp_l, <- Hvy.
    destruct sy; unfold negb, cond_Zopp; ring.
  - intros Hx [-> ->]. rewrite Z.sub_0_r. now apply denotes_lit.
  - intros [Hbx Hvx] [Hby Hvy]. unfold lit. cbn [SFsub].
    pose proof (bounded_ge_emin mx ex Hbx).
    pose proof (bounded_ge_emin my ey Hby).
    apply binary_normalize_value with (B := bias);
      [ unfold bias; lia | lia | ].
    rewrite !Z.mul_sub_distr_r.
    f_equal; apply aligned_value; trivial; lia.
Qed.

Lemma digits2_pos_bounds (p : positive) :
  2 ^ (Zpos (digits2_pos p) - 1) <= Zpos p < 2 ^ Zpos (digits2_pos p).
Proof.
  induction p as [ p IH | p IH | ]; cbn [digits2_pos].
  - rewrite Pos2Z.inj_succ, Z.pow_succ_r by lia.
    replace (Z.succ (Z.pos (digits2_pos p)) - 1)
      with (Z.succ (Z.pos (digits2_pos p) - 1)) by lia.
    rewrite Z.pow_succ_r by lia. lia.
  - rewrite Pos2Z.inj_succ, Z.pow_succ_r by lia.
    replace (Z.succ (Z.pos (digits2_pos p)) - 1)
      with (Z.succ (Z.pos (digits2_pos p) - 1)) by lia.
    rewrite Z.pow_succ_r by lia. lia.
  - simpl. lia.
Qed.

Lemma digits2_pos_iter_xO (m k : positive) :
  digits2_pos (Pos.iter xO m k) = (digits2_pos m + k)%positive.
Proof.
  induction k as [ | k IH ] using Pos.peano_ind.
  - simpl. lia.
  - rewrite Pos.iter_succ. cbn [digits2_pos]. rewrite IH. lia.
Qed.

(** An integer of at most 53 bits, and [2 ^ 53] itself, is rounded to
    itself. *)
Lemma binary_round_denotes (s : bool) (p : positive) :
  Zpos p <= 2 ^ 53 ->
  denotes (binary_round prec emax s p 0) (cond_Zopp s (Zpos p)).
Proof.
  intros Hp. pose proof (digits2_pos_bounds p) as [Hlo Hhi].
  assert (Hd : Zpos (digits2_pos p) <= 54).
  { destruct (Z.le_gt_cases (Zpos (digits2_pos p)) 54) as [ | Hgt ]; trivial.
    assert (2 ^ 54 <= 2 ^ (Zpos (digits2_pos p) - 1))
      by (apply Z.pow_le_mono_r; lia).
    assert (2 ^ 53 < 2 ^ 54) by (apply Z.pow_lt_mono_r; lia). lia. }
  destruct (Z.eq_dec (Zpos (digits2_pos p)) 54) as [He | Hne].
  - rewrite He in Hlo. change (54 - 1) with 53 in Hlo.
    assert (Heq : Zpos p = 2 ^ 53) by lia.
    change (2 ^ 53) with (Zpos (Pos.iter xO 1%positive 53)) in Heq.
    injection Heq as ->. destruct s; vm_compute; split; reflexivity.
  - set (d := digits2_pos p) in *.
    assert (Hb : forall m, digits2_pos m = 53%positive ->
                 bounded prec emax m (Zpos d - 53) = true).
    { intros m Hm. unfold bounded, canonical_mantissa, fexp, emin, prec, emax.
      rewrite Hm. apply andb_true_iff. split; [ apply Z.eqb_eq | apply Z.leb_le ]; lia. }
    destruct (Z.eq_dec (Zpos d) 53) as [H53 | Hlt].
    + rewrite binary_round_canonical by (rewrite <- H53, Z.sub_diag in Hb; apply Hb; lia).
      unfold denotes. split.
      * rewrite <- H53, Z.sub_diag in Hb. apply Hb. lia.
      * reflexivity.
    + assert (Hk : exists k : positive, Zpos k = 53 - Zpos d).
      { exists (Z.to_pos (53 - Zpos d)). rewrite Z2Pos.id; lia. }
      destruct Hk as [k Hk].
      rewrite <- (binary_round_shift prec emax s p 0 k).
      replace (0 - Zpos k) with (Zpos d - 53) by lia.
      assert (Hm : digits2_pos (Pos.iter xO p k) = 53%positive)
        by (rewrite digits2_pos_iter_xO; fold d; lia).
      rewrite binary_round_canonical by now apply Hb.
      unfold denotes. split; [ now apply Hb | ].
      rewrite Zpos_iter_xO, cond_Zopp_mul, <- Z.mul_assoc, <- Z.pow_add_r
        by (unfold bias; lia).
      do 2 f_equal. unfold bias. lia.
Qed.

Lemma lit_denotes (n : Z) : - 2 ^ 53 <= n <= 2 ^ 53 -> denotes (lit n) n.
Proof.
  intros Hn. destruct n as [ | p | p ].
  - now split.
  - apply (binary_round_denotes false p). lia.
  - apply (binary_round_denotes true p). lia.
Qed.

(** The literals the sources write, and the first integer that binary64
    cannot hold. *)
Example lit_zero : lit 0 = S754_zero false.
Proof. reflexivity. Qed.

Example lit_one : lit 1 = S754_finite false 4503599627370496 (-52).
Proof. reflexivity. Qed.

Example lit_2_53_plus_1 : lit (2 ^ 53 + 1) = lit (2 ^ 53).
Proof. vm_compute. reflexivity. Qed.

(** Addition and subtraction of integer literals within [2 ^ 53] are the
    exact sum and difference, rounded once. *)
Lemma add_lit (a b : Z) :
  - 2 ^ 53 <= a <= 2 ^ 53 -> - 2 ^ 53 <= b <= 2 ^ 53 ->
  add (lit a) (lit b) = lit (a + b).
Proof. intros Ha Hb. apply add_denotes; now apply lit_denotes. Qed.

Lemma sub_lit (a b : Z) :
  - 2 ^ 53 <= a <= 2 ^ 53 -> - 2 ^ 53 <= b <= 2 ^ 53 ->
  sub (lit a) (lit b) = lit (a - b).
Proof. intros Ha Hb. apply sub_denotes; now apply lit_denotes. Qed.

End Binary64.

(** ** The counter slice *)

Section CounterSliceFacts.
Import JsNumber CounterSlice.

(** C7, as stated, fails at the state whose value is [2 ^ 53]: the
    increment rounds [2 ^ 53 + 1] back to [2 ^ 53], so the decrement that
    follows returns [2 ^ 53 - 1]. *)
Lemma increment_then_decrement_at_2_53 :
  is_double (lit (2 ^ 53)) = true /\
  increment {| value := lit (2 ^ 53) |} >>= decrement
  = Normal {| value := lit (2 ^ 53 - 1) |} /\
  increment {| value := lit (2 ^ 53) |} >>= decrement
  <> Normal {| value := lit (2 ^ 53) |}.
Proof.
  split; [ | split ].
  - vm_compute. reflexivity.
  - vm_compute. reflexivity.
  - vm_compute. intros H. discriminate H.
Qed.

(** C7, amended. For every counter state whose value is an integer [n] with
    [- 2 ^ 53 <= n < 2 ^ 53], applying [increment] and then [decrement]
    returns that state. *)
Theorem increment_then_decrement (n : Z) :
  - 2 ^ 53 <= n < 2 ^ 53 ->
  increment {| value := lit n |} >>= decrement = Normal {| value := lit n |}.
Proof.
  intros Hn. unfold increment, decrement, assign_value. cbn [bind value].
  rewrite add_lit, sub_lit by lia.
  do 3 f_equal. lia.
Qed.

Lemma increment_then_decrement_witness :
  - 2 ^ 53 <= 2 ^ 53 - 1 < 2 ^ 53 /\
  increment {| value := lit (2 ^ 53 - 1) |} >>= decrement
  = Normal {| value := lit (2 ^ 53 - 1) |}.
Proof.
  split; [ lia | apply (increment_then_decrement (2 ^ 53 - 1)); lia ].
Defined.

(** C8. On every counter state, [incrementByAmount] with payload [1] yields
    exactly the state that [increment] yields. *)
Theorem incrementByAmount_one (state : CounterState) (ty : string) :
  incrementByAmount state {| type := ty; payload := lit 1 |}
  = increment state.
Proof. reflexivity. Qed.

(** C9, as stated, fails at the state whose value is [2 ^ 53] with payloads
    [1] and [1]: each single step rounds back to [2 ^ 53], while the payload
    [1 + 1] reaches [2 ^ 53 + 2]. *)
Lemma incrementByAmount_twice_at_2_53 :
  is_double (lit (2 ^ 53)) = true /\ is_double (lit 1) = true /\
  incrementByAmount {| value := lit (2 ^ 53) |}
    (incrementByAmount_action (lit 1))
  >>= (fun s => incrementByAmount s (incrementByAmount_action (lit 1)))
  = Normal {| value := lit (2 ^ 53) |} /\
  incrementByAmount {| value := lit (2 ^ 53) |}
    (incrementByAmount_action (add (lit 1) (lit 1)))
  = Normal {| value := lit (2 ^ 53 + 2) |} /\
  incrementByAmount {| value := lit (2 ^ 53) |}
    (incrementByAmount_action (lit 1))
  >>= (fun s => incrementByAmount s (incrementByAmount_action (lit 1)))
  <> incrementByAmount {| value := lit (2 ^ 53) |}
       (incrementByAmount_action (add (lit 1) (lit 1))).
Proof.
  repeat split; try (vm_compute; reflexivity).
  vm_compute. intros H. discriminate H.
Qed.

(** C9, amended. For every counter state whose value is an integer [s] and
    all integer payloads [a] and [b], where [s], [a], [b], [s + a] and
    [a + b] lie within [2 ^ 53] in magnitude, applying [incrementByAmount]
    with payload [a] and then with payload [b] yields the same state as
    applying it once with payload [a + b]. *)
Theorem incrementByAmount_twice (s a b : Z) :
  - 2 ^ 53 <= s <= 2 ^ 53 ->
  - 2 ^ 53 <= a <= 2 ^ 53 ->
  - 2 ^ 53 <= b <= 2 ^ 53 ->
  - 2 ^ 53 <= s + a <= 2 ^ 53 ->
  - 2 ^ 53 <= a + b <= 2 ^ 53 ->
  incrementByAmount {| value := lit s |} (incrementByAmount_action (lit a))
  >>= (fun s' => incrementByAmount s' (incrementByAmount_action (lit b)))
  = incrementByAmount {| value := lit s |}
      (incrementByAmount_action (add (lit a) (lit b))).
Proof.
  intros Hs Ha Hb Hsa Hab.
  unfold incrementByAmount, incrementByAmount_action, assign_value.
  cbn [bind value payload].
  rewrite !add_lit by assumption.
  do 3 f_equal. lia.
Qed.

Lemma incrementByAmount_twice_witness :
  (- 2 ^ 53 <= 40 <= 2 ^ 53) /\ (- 2 ^ 53 <= 2 <= 2 ^ 53) /\
  (- 2 ^ 53 <= -7 <= 2 ^ 53) /\ (- 2 ^ 53 <= 40 + 2 <= 2 ^ 53) /\
  (- 2 ^ 53 <= 2 + -7 <= 2 ^ 53) /\
  incrementByAmount {| value := lit 40 |} (incrementByAmount_action (lit 2))
  >>= (fun s' => incrementByAmount s' (incrementByAmount_action (lit (-7))))
  = incrementByAmount {| value := lit 40 |}
      (incrementByAmount_action (add (lit 2) (lit (-7)))).
Proof.
  repeat (split; [ lia | ]).
  apply (incrementByAmount_twice 40 2 (-7)); lia.
Defined.

End CounterSliceFacts.

(** ** The linter configuration *)

Section EslintrcFacts.
Import JsNumber Eslintrc.

(** C3. The [extends] field of the configuration is exactly the list of
    these eight rule-set names, in this order. *)
Theorem extends_rule_sets :
  get "extends" module_exports
  = Some (JArr (map JStr
      [ "react-app"; "react-app/jest"; "plugin:react/recommended";
        "eslint:recommended"; "plugin:@typescript-eslint/eslint-recommended";
        "plugin:@typescript-eslint/recommended"; "google"; "prettier" ])) /\
  extends
  = map JStr
      [ "react-app"; "react-app/jest"; "plugin:react/recommended";
        "eslint:recommended"; "plugin:@typescript-eslint/eslint-recommended";
        "plugin:@typescript-eslint/recommended"; "google"; "prettier" ].
Proof. split; reflexivity. Qed.

(** C2, as stated, fails: the [rules] object does not consist of one
    disabled rule, one rule at error severity and one at warning severity;
    it holds five overrides and disables three of them. *)
Lemma rules_not_one_disabled :
  ~ (List.length (overridden Off rules) = 1%nat /\
     List.length (overridden Error rules) = 1%nat /\
     List.length (overridden Warning rules) = 1%nat /\
     List.length rules = 3%nat).
Proof. vm_compute. intros [H _]. discriminate H. Qed.

(** C2, amended. The [rules] object disables exactly three rules
    ([react/react-in-jsx-scope], [require-jsdoc], [linebreak-style]) and
    escalates exactly two others, [prettier/prettier] to error severity and
    [no-console] to warning severity; it holds these five overrides and no
    other. *)
Theorem rules_overrides :
  overridden Off rules
  = [ "react/react-in-jsx-scope"; "require-jsdoc"; "linebreak-style" ] /\
  overridden Error rules = [ "prettier/prettier" ] /\
  overridden Warning rules = [ "no-console" ] /\
  map fst rules
  = [ "react/react-in-jsx-scope"; "require-jsdoc"; "no-console";
      "prettier/prettier"; "linebreak-style" ] /\
  List.length rules = 5%nat.
Proof. repeat split; vm_compute; reflexivity. Qed.

End EslintrcFacts.

(** ** Case reducers called in sequence *)

Section CounterCallsFacts.
Import JsNumber CounterSlice CounterCalls.

Lemma safe_bounds (n : Z) : safe n = true <-> - 2 ^ 53 <= n <= 2 ^ 53.
Proof.
  unfold safe. rewrite andb_true_iff, !Z.leb_le. reflexivity.
Qed.

Lemma sub_add_opp (x y : number) : sub x y = add x (SFopp y).
Proof.
  unfold sub, add.
  destruct x as [ sx | sx | | sx mx ex ], y as [ sy | sy | | sy my ey ];
    cbn [SFsub SFadd SFopp]; try reflexivity;
    destruct sx, sy; reflexivity.
Qed.

Lemma run_app (before after : list CaseReducer) (state : CounterState) :
  run (before ++ after) state = run before state >>= run after.
Proof.
  revert state. induction before as [ | r before IH ]; intro state.
  - reflexivity.
  - cbn [app run]. destruct (call r state) as [ s' | reason ].
    + cbn [bind]. apply IH.
    + reflexivity.
Qed.

(** X1. On every state, [decrement] yields exactly what [incrementByAmount]
    yields with payload [-1]: subtracting [1] and adding [-1] agree on every
    number, the zeros, the infinities and NaN included. *)
Theorem decrement_is_incrementByAmount_minus_one
  (state : CounterState) (ty : string) :
  decrement state
  = incrementByAmount state {| type := ty; payload := lit (-1) |}.
Proof.
  unfold decrement, incrementByAmount. cbn [payload].
  now rewrite sub_add_opp.
Qed.

Lemma call_step (st : Step) (s : Z) :
  safe s = true -> safe (delta st) = true ->
  call (to_call st) {| value := lit s |}
  = Normal {| value := lit (s + delta st) |}.
Proof.
  rewrite !safe_bounds. intros Hs Hd.
  destruct st as [ | | p ]; cbn [to_call call delta] in *;
    unfold increment, decrement, incrementByAmount, incrementByAmount_action,
      assign_value; cbn [value payload].
  - now rewrite add_lit.
  - now rewrite sub_lit.
  - now rewrite add_lit.
Qed.

(** X2. The counter is exact on integers: started from an integer [s] within
    [2 ^ 53], any sequence of [increment], [decrement] and integer
    [incrementByAmount] calls whose amounts and running totals all stay
    within [2 ^ 53] ends, without throwing, in the state whose value is [s]
    plus the sum of the amounts. *)
Theorem run_steps_exact (steps : list Step) (s : Z) :
  safe s = true ->
  totals_safe s steps = true ->
  run (map to_call steps) {| value := lit s |}
  = Normal {| value := lit (total s steps) |}.
Proof.
  revert s. induction steps as [ | st steps IH ]; intros s Hs Ht.
  - reflexivity.
  - cbn [totals_safe] in Ht. apply andb_true_iff in Ht.
    destruct Ht as [Ht Hrest]. apply andb_true_iff in Ht.
    destruct Ht as [Hd Hsd].
    cbn [map run]. rewrite call_step by assumption. cbn [bind].
    rewrite IH by assumption. reflexivity.
Qed.

Lemma run_steps_exact_witness :
  safe 5 = true /\
  totals_safe 5 [Inc; By (-9); Dec; By (2 ^ 53); Inc; Inc; Dec] = true /\
  run (map to_call [Inc; By (-9); Dec; By (2 ^ 53); Inc; Inc; Dec])
    {| value := lit 5 |}
  = Normal
      {| value :=
           lit (total 5
                  [Inc; By (-9); Dec; By (2 ^ 53); Inc; Inc; Dec]) |}.
Proof.
  split; [ reflexivity | split; [ reflexivity | ] ].
  apply (run_steps_exact [Inc; By (-9); Dec; By (2 ^ 53); Inc; Inc; Dec] 5);
    reflexivity.
Defined.

Lemma increment_saturates (n : Z) :
  - 2 ^ 53 <= n <= 2 ^ 53 ->
  add (lit n) (lit 1) = lit (Z.min (n + 1) (2 ^ 53)).
Proof.
  intros Hn. destruct (Z.eq_dec n (2 ^ 53)) as [-> | Hne].
  - vm_compute. reflexivity.
  - rewrite add_lit by lia. f_equal. lia.
Qed.

Lemma decrement_saturates (n : Z) :
  - 2 ^ 53 <= n <= 2 ^ 53 ->
  sub (lit n) (lit 1) = lit (Z.max (n - 1) (- 2 ^ 53)).
Proof.
  intros Hn. destruct (Z.eq_dec n (- 2 ^ 53)) as [-> | Hne].
  - vm_compute. reflexivity.
  - rewrite sub_lit by lia. f_equal. lia.
Qed.

Lemma run_increments (k : nat) (n : Z) :
  - 2 ^ 53 <= n <= 2 ^ 53 ->
  run (repeat Increment k) {| value := lit n |}
  = Normal {| value := lit (Z.min (n + Z.of_nat k) (2 ^ 53)) |}.
Proof.
  revert n. induction k as [ | k IH ]; intros n Hn.
  - cbn [repeat run]. do 3 f_equal. lia.
  - cbn [repeat run call]. unfold increment, assign_value. cbn [value bind].
    rewrite increment_saturates, IH by lia. do 3 f_equal. lia.
Qed.

Lemma run_decrements (k : nat) (n : Z) :
  - 2 ^ 53 <= n <= 2 ^ 53 ->
  run (repeat Decrement k) {| value := lit n |}
  = Normal {| value := lit (Z.max (n - Z.of_nat k) (- 2 ^ 53)) |}.
Proof.
  revert n. induction k as [ | k IH ]; intros n Hn.
  - cbn [repeat run]. do 3 f_equal. lia.
  - cbn [repeat run call]. unfold decrement, assign_value. cbn [value bind].
    rewrite decrement_saturates, IH by lia. do 3 f_equal. lia.
Qed.

(** X3. Counting up from the initial state saturates: after [k] calls of
    [increment] the value is [k] while [k <= 2 ^ 53], and stays [2 ^ 53]
    for every larger [k]. *)
Theorem increments_from_initialState (k : nat) :
  run (repeat Increment k) initialState
  = Normal {| value := lit (Z.min (Z.of_nat k) (2 ^ 53)) |}.
Proof.
  unfold initialState. rewrite run_increments by lia. reflexivity.
Qed.

(** X4. Counting down from the initial state saturates: after [k] calls of
    [decrement] the value is [- k] while [k <= 2 ^ 53], and stays
    [- 2 ^ 53] for every larger [k]. *)
Theorem decrements_from_initialState (k : nat) :
  run (repeat Decrement k) initialState
  = Normal {| value := lit (Z.max (- Z.of_nat k) (- 2 ^ 53)) |}.
Proof.
  unfold initialState. rewrite run_decrements by lia. reflexivity.
Qed.

Lemma run_nan (calls : list CaseReducer) :
  run calls {| value := S754_nan |} = Normal {| value := S754_nan |}.
Proof.
  induction calls as [ | r calls IH ].
  - reflexivity.
  - cbn [run]. destruct r as [ | | action ]; cbn [call];
      unfold increment, decrement, incrementByAmount, assign_value, add, sub;
      cbn [value SFadd SFsub bind]; apply IH.
Qed.

Lemma run_completes (calls : list CaseReducer) (state : CounterState) :
  exists s, run calls state = Normal s.
Proof.
  revert state. induction calls as [ | r calls IH ]; intro state.
  - now exists state.
  - cbn [run]. destruct r; cbn [call];
      unfold increment, decrement, incrementByAmount, assign_value;
      cbn [bind]; apply IH.
Qed.

(** X5. A NaN payload poisons the counter for good: whatever the state and
    the calls before, once [incrementByAmount] is called with payload NaN
    the value is NaN, and it is still NaN after any calls that follow. *)
Theorem nan_payload_is_absorbing
  (before after : list CaseReducer) (state : CounterState) (ty : string) :
  run (before ++ IncrementByAmount {| type := ty; payload := S754_nan |}
         :: after) state
  = Normal {| value := S754_nan |}.
Proof.
  destruct (run_completes before state) as [s Hb].
  rewrite run_app, Hb. cbn [bind run call].
  unfold incrementByAmount, assign_value, add. cbn [payload].
  replace (SFadd prec emax (value s) S754_nan) with S754_nan
    by (destruct (value s); reflexivity).
  cbn [bind]. apply run_nan.
Qed.

(** X6. An infinite count cannot be left by finite amounts: from the state
    whose value is the infinity of sign [sg], every sequence of calls that
    add or subtract only finite numbers ends in that same state. *)
Theorem infinity_is_absorbing (sg : bool) (calls : list CaseReducer) :
  forallb finite_call calls = true ->
  run calls {| value := S754_infinity sg |}
  = Normal {| value := S754_infinity sg |}.
Proof.
  induction calls as [ | r calls IH ]; intros Hf.
  - reflexivity.
  - cbn [forallb] in Hf. apply andb_true_iff in Hf. destruct Hf as [Hr Hf].
    cbn [run]. destruct r as [ | | [ty p] ]; cbn [call];
      unfold increment, decrement, incrementByAmount, assign_value;
      cbn [value payload].
    + rewrite lit_one. cbn [add SFadd bind]. unfold add. cbn [SFadd bind].
      now apply IH.
    + rewrite lit_one. unfold sub. cbn [SFsub bind]. now apply IH.
    + cbn [finite_call payload] in Hr.
      destruct p as [ s0 | s0 | | s0 m0 e0 ]; try discriminate Hr;
        unfold add; cbn [SFadd bind]; now apply IH.
Qed.

Lemma infinity_is_absorbing_witness :
  forallb finite_call
    [Increment; IncrementByAmount (incrementByAmount_action (lit (-40)));
     Decrement] = true /\
  run [Increment; IncrementByAmount (incrementByAmount_action (lit (-40)));
       Decrement] {| value := S754_infinity false |}
  = Normal {| value := S754_infinity false |}.
Proof.
  split; [ reflexivity | ].
  apply (infinity_is_absorbing false
           [Increment;
            IncrementByAmount (incrementByAmount_action (lit (-40)));
            Decrement]).
  reflexivity.
Defined.

(** X7. [incrementByAmount] with payload [0] leaves every state as it is,
    except the state whose value is the negative zero. *)
Theorem incrementByAmount_zero (state : CounterState) (ty : string) :
  value state <> S754_zero true ->
  incrementByAmount state {| type := ty; payload := lit 0 |} = Normal state.
Proof.
  destruct state as [v]. cbn [value]. intros Hv.
  unfold incrementByAmount, assign_value, add. cbn [value payload].
  rewrite lit_zero.
  destruct v as [ [ | ] | s | | s m e ]; cbn [SFadd];
    try reflexivity. now elim Hv.
Qed.

Lemma incrementByAmount_zero_witness :
  value {| value := lit 7 |} <> S754_zero true /\
  incrementByAmount {| value := lit 7 |}
    {| type := "counter/incrementByAmount"; payload := lit 0 |}
  = Normal {| value := lit 7 |}.
Proof.
  split; [ intros H; discriminate H | ].
  apply (incrementByAmount_zero {| value := lit 7 |}).
  intros H; discriminate H.
Defined.

End CounterCallsFacts.

(** ** The endpoint's query *)

Section PokemonApiFacts.
Import PokemonApi.

Lemma substring_whole (s : string) : substring 0 (String.length s) s = s.
Proof.
  induction s as [ | c s IH ]; cbn [String.length substring].
  - reflexivity.
  - now rewrite IH.
Qed.

(** X8. The query separates names: two names give the same path exactly
    when they are the same name. *)
Theorem query_injective (a b : string) : query a = query b <-> a = b.
Proof.
  split.
  - unfold query. cbn [append]. intros H. now injection H.
  - now intros ->.
Qed.

(** X9. The path carries the name unchanged: it is the name behind a prefix
    of eight characters, nothing is escaped, cut or added, so the name is
    read back from position 8 of the path. *)
Theorem query_carries_name (name : string) :
  String.length (query name) = (8 + String.length name)%nat /\
  substring 0 8 (query name) = "pokemon/" /\
  substring 8 (String.length name) (query name) = name.
Proof.
  unfold query. cbn [append String.length]. repeat split.
  - cbn [substring]. now destruct name.
  - cbn [substring]. apply substring_whole.
Qed.

End PokemonApiFacts.

(** ** Reading the rules back *)

Section EslintrcLookup.
Import JsNumber Eslintrc.

(** X10. No rule name is written twice in [rules]: the names of its
    entries are pairwise distinct, so every entry written in the object is
    the one a read of its key returns and none is shadowed by a later
    entry. *)
Theorem rules_names_distinct :
  NoDup (map fst rules) /\
  (forall k v, In (k, v) rules -> Eslintrc.get k (JObj rules) = Some v).
Proof.
  split.
  - cbn. repeat constructor; cbn; intuition discriminate.
  - intros k v H. cbn in H.
    repeat (destruct H as [H | H]; [ injection H as <- <-; reflexivity | ]).
    contradiction.
Qed.

End EslintrcLookup.

(** ** The case reducers on untyped values *)

Section RuntimeFacts.
Import JsNumber Runtime.

Variable number_to_string : number -> string.
Variable string_to_number : string -> number.

Let increment := Runtime.increment number_to_string string_to_number.
Let decrement := Runtime.decrement string_to_number.
Let incrementByAmount :=
  Runtime.incrementByAmount number_to_string string_to_number.

Lemma own_put_same (k : string) (v : Value) (fields : list (string * Value)) :
  own k (put k v fields) = Some v.
Proof.
  induction fields as [ | [k' v'] fields IH ]; cbn [put own].
  - now rewrite String.eqb_refl.
  - destruct (String.eqb k k') eqn:E; cbn [own].
    + now rewrite String.eqb_refl.
    + now rewrite E.
Qed.


Lemma is_CounterState_inv (v : Value) :
  is_CounterState v = true ->
  exists fields n, v = VObject fields /\ own "value" fields = Some (VNumber n).
Proof.
  destruct v as [ | | b | n | z | s | fields ]; try discriminate.
  cbn [is_CounterState].
  destruct (own "value" fields) as [ [ | | b | n | z | s | fs ] | ] eqn:E;
    try discriminate.
  intros _. now exists fields, n.
Qed.

Lemma is_PayloadAction_inv (v : Value) :
  is_PayloadAction v = true ->
  exists fields p, v = VObject fields /\ own "payload" fields = Some (VNumber p).
Proof.
  destruct v as [ | | b | n | z | s | fields ]; try discriminate.
  cbn [is_PayloadAction].
  destruct (own "type" fields) as [ [ | | b | n | z | ty | fs ] | ];
    try discriminate.
  destruct (own "payload" fields) as [ [ | | b | p | z | s | fs ] | ] eqn:E;
    try discriminate.
  intros _. now exists fields, p.
Qed.

Lemma is_CounterState_put (n : number) (fields : list (string * Value)) :
  is_CounterState (VObject (put "value" (VNumber n) fields)) = true.
Proof. cbn [is_CounterState]. now rewrite own_put_same. Qed.

(** Outside the types the bodies do throw: on a missing state, and on a
    state whose [value] is a BigInt. *)
Example increment_undefined : increment VUndefined = Throw "TypeError".
Proof. reflexivity. Qed.

Example decrement_null : decrement VNull = Throw "TypeError".
Proof. reflexivity. Qed.

Example increment_bigint :
  increment (VObject [ ("value", VBigInt 1) ]) = Throw "TypeError".
Proof. reflexivity. Qed.

Example incrementByAmount_no_action :
  incrementByAmount (VObject [ ("value", VNumber (lit 0)) ]) VUndefined
  = Throw "TypeError".
Proof. reflexivity. Qed.

(** The steps of each body on a state object whose [value] is a number. *)
Lemma increment_on_number (fields : list (string * Value)) (n : number) :
  own "value" fields = Some (VNumber n) ->
  increment (VObject fields)
  = Normal (VObject (put "value" (VNumber (add n (lit 1))) fields)).
Proof.
  intros Hv. unfold increment, Runtime.increment, get_member.
  rewrite Hv. reflexivity.
Qed.

Lemma decrement_on_number (fields : list (string * Value)) (n : number) :
  own "value" fields = Some (VNumber n) ->
  decrement (VObject fields)
  = Normal (VObject (put "value" (VNumber (sub n (lit 1))) fields)).
Proof.
  intros Hv. unfold decrement, Runtime.decrement, get_member.
  rewrite Hv. reflexivity.
Qed.

Lemma incrementByAmount_on_number
  (fields afields : list (string * Value)) (n p : number) :
  own "value" fields = Some (VNumber n) ->
  own "payload" afields = Some (VNumber p) ->
  incrementByAmount (VObject fields) (VObject afields)
  = Normal (VObject (put "value" (VNumber (add n p)) fields)).
Proof.
  intros Hv Hp. unfold incrementByAmount, Runtime.incrementByAmount, get_member.
  rewrite Hv, Hp. reflexivity.
Qed.

(** On the run-time image of a typed state the bodies are the typed
    reducers. *)
Lemma runtime_refines_typed
  (s : CounterSlice.CounterState) (a : CounterSlice.PayloadAction) :
  increment (of_state s)
  = (CounterSlice.increment s >>= fun s' => Normal (of_state s')) /\
  decrement (of_state s)
  = (CounterSlice.decrement s >>= fun s' => Normal (of_state s')) /\
  incrementByAmount (of_state s) (of_action a)
  = (CounterSlice.incrementByAmount s a >>= fun s' => Normal (of_state s')).
Proof. repeat split. Qed.

(** C4. No case reducer of the counter slice can fail on the inputs its
    types admit: for every state that is a [CounterState] and every action
    that is a [PayloadAction<number>], [increment], [decrement] and
    [incrementByAmount] complete normally, none of the throwing branches of
    the member reads, of [+] and [-], or of the write is reached, and the
    state they leave is again a [CounterState]. *)
Theorem case_reducers_never_throw (state action : Value) :
  is_CounterState state = true ->
  is_PayloadAction action = true ->
  (exists s', increment state = Normal s' /\ is_CounterState s' = true) /\
  (exists s', decrement state = Normal s' /\ is_CounterState s' = true) /\
  (exists s', incrementByAmount state action = Normal s' /\
              is_CounterState s' = true).
Proof.
  intros Hs Ha.
  destruct (is_CounterState_inv state Hs) as (fields & n & -> & Hv).
  destruct (is_PayloadAction_inv action Ha) as (afields & p & -> & Hp).
  split; [ | split ].
  - exists (VObject (put "value" (VNumber (add n (lit 1))) fields)).
    split; [ now apply increment_on_number | apply is_CounterState_put ].
  - exists (VObject (put "value" (VNumber (sub n (lit 1))) fields)).
    split; [ now apply decrement_on_number | apply is_CounterState_put ].
  - exists (VObject (put "value" (VNumber (add n p)) fields)).
    split; [ now apply incrementByAmount_on_number | apply is_CounterState_put ].
Qed.


End RuntimeFacts.

Section RuntimeWitnesses.
Import JsNumber Runtime.

Lemma case_reducers_never_throw_witness :
  is_CounterState
    (VObject [ ("value", VNumber (lit 41)); ("status", VString "idle") ])
  = true /\
  is_PayloadAction (of_action (CounterSlice.incrementByAmount_action (lit 2)))
  = true /\
  (exists s',
      Runtime.increment (fun _ => "") (fun _ => S754_nan)
        (VObject [ ("value", VNumber (lit 41)); ("status", VString "idle") ])
      = Normal s' /\ is_CounterState s' = true) /\
  (exists s',
      Runtime.decrement (fun _ => S754_nan)
        (VObject [ ("value", VNumber (lit 41)); ("status", VString "idle") ])
      = Normal s' /\ is_CounterState s' = true) /\
  (exists s',
      Runtime.incrementByAmount (fun _ => "") (fun _ => S754_nan)
        (VObject [ ("value", VNumber (lit 41)); ("status", VString "idle") ])
        (of_action (CounterSlice.incrementByAmount_action (lit 2)))
      = Normal s' /\ is_CounterState s' = true).
Proof.
  split; [ reflexivity | split; [ reflexivity | ] ].
  exact (case_reducers_never_throw (fun _ => "") (fun _ => S754_nan)
           (VObject [ ("value", VNumber (lit 41)); ("status", VString "idle") ])
           (of_action (CounterSlice.incrementByAmount_action (lit 2)))
           eq_refl eq_refl).
Defined.


End RuntimeWitnesses.
